(** * cds-service-test: the CDS Hooks patient-view service

    A shallow embedding of the Express handlers of [src/index.js] and of its
    commented revision [src/unnamed/part_000], and the properties of the
    request pipeline: hook validation, the FHIR fetch, the empty-result
    short-circuit, the in-place sort, the markdown rendering and the
    catch-all error path. *)

From Stdlib Require Import ZArith List String Ascii Bool Lia.
From Stdlib Require Import Permutation Sorted DecimalString.
Import ListNotations.

Local Open Scope string_scope.
Local Open Scope Z_scope.

Set Warnings "-register-all".

(** ** JavaScript values

    The values the handlers see are the ones [JSON.parse] and body-parser
    build: trees without sharing or cycles.  A property that is absent reads
    as [VUndefined].  An object is the list of its own properties in
    insertion order, a key occurring at most once.  The handlers never do
    arithmetic: a number is only tested against 0, tested for truthiness
    and printed, and the numbers of the FHIR bundle shape are counts, so
    numbers are carried as integers (a count is well below the 1e21 from
    which JavaScript prints a number with an exponent). *)

Inductive value : Type :=
| VUndefined
| VNull
| VBool (b : bool)
| VNum (n : Z)
| VStr (s : string)
| VArr (items : list value)
| VObj (props : list (string * value)).

(** What a [throw] carries: the built-in errors raised by the runtime, the
    rejections of request-promise, and any value thrown by [_throw]. *)
Inductive exn : Type :=
| TypeError
| SyntaxError
| RequestError (cause : string)
| StatusCodeError (status : Z)
| Thrown (v : value).

Inductive result (A : Type) : Type :=
| Ok (a : A)
| Err (e : exn).
Arguments Ok {A} a.
Arguments Err {A} e.

Definition bind {A B} (r : result A) (k : A -> result B) : result B :=
  match r with
  | Ok a => k a
  | Err e => Err e
  end.

Notation "x <- r ;; k" := (bind r (fun x => k))
  (at level 61, r at next level, right associativity).

(** ** Property reads and conversions *)

Fixpoint lookup (k : string) (props : list (string * value)) : option value :=
  match props with
  | [] => None
  | (k', v) :: rest => if String.eqb k k' then Some v else lookup k rest
  end.

(** [o.k] for the data properties the handlers read ([hook], [context],
    [total], [entry], [resource], ...; none of these names is defined on a
    built-in prototype): reading from [undefined] or [null] throws a
    TypeError, reading from anything else without such an own property gives
    [undefined]. *)
Definition get_prop (o : value) (k : string) : result value :=
  match o with
  | VUndefined | VNull => Err TypeError
  | VObj props =>
      match lookup k props with
      | Some v => Ok v
      | None => Ok VUndefined
      end
  | _ => Ok VUndefined
  end.

(** ToBoolean, the test behind [||] and [!]. *)
Definition ToBoolean (v : value) : bool :=
  match v with
  | VUndefined | VNull => false
  | VBool b => b
  | VNum n => negb (n =? 0)
  | VStr s => negb (String.eqb s "")
  | VArr _ | VObj _ => true
  end.

Definition Number_toString (n : Z) : string :=
  NilZero.string_of_int (Z.to_int n).

(** ToString, as applied by template literals and by [Array.prototype.join].
    An array prints its elements joined by commas, [undefined] and [null]
    elements as the empty string.  A parsed object has no callable own
    property: it prints as [[object Object]] through [Object.prototype],
    unless an own [toString] key shadows the inherited method, in which
    case no conversion is left and a TypeError is thrown. *)
Fixpoint ToString (v : value) : result string :=
  match v with
  | VUndefined => Ok "undefined"
  | VNull => Ok "null"
  | VBool true => Ok "true"
  | VBool false => Ok "false"
  | VNum n => Ok (Number_toString n)
  | VStr s => Ok s
  | VArr items =>
      parts <- (fix elements (l : list value) : result (list string) :=
                  match l with
                  | [] => Ok []
                  | x :: rest =>
                      s <- match x with
                           | VUndefined | VNull => Ok ""
                           | _ => ToString x
                           end ;;
                      ss <- elements rest ;;
                      Ok (s :: ss)
                  end) items ;;
      Ok (String.concat "," parts)
  | VObj props =>
      match lookup "toString" props with
      | Some _ => Err TypeError
      | None => Ok "[object Object]"
      end
  end.

(** ToPrimitive of an array or a parsed object ends in the same [toString]
    call whatever the hint ([valueOf] returns the object itself). *)
Definition ToPrimitive (v : value) : result value :=
  match v with
  | VArr _ | VObj _ => s <- ToString v ;; Ok (VStr s)
  | _ => Ok v
  end.

(** [v == s] for a string literal [s] that is not a numeric literal (its
    ToNumber is NaN, as for ["patient-view"]): booleans and numbers are
    compared as numbers and differ from NaN; arrays and objects are
    compared through ToPrimitive. *)
Definition loose_eq_text (v : value) (s : string) : result bool :=
  p <- ToPrimitive v ;;
  match p with
  | VStr t => Ok (String.eqb t s)
  | _ => Ok false
  end.

(** [String.prototype.split] with a one-character separator. *)
Fixpoint split (sep : ascii) (s : string) : list string :=
  match s with
  | EmptyString => [EmptyString]
  | String c rest =>
      if Ascii.eqb c sep then EmptyString :: split sep rest
      else match split sep rest with
           | h :: t => String c h :: t
           | [] => [String c EmptyString]
           end
  end.

(** [a[i]] on an array of strings. *)
Definition index (a : list string) (i : nat) : value :=
  match nth_error a i with
  | Some s => VStr s
  | None => VUndefined
  end.

Definition LF : string := String (ascii_of_nat 10) EmptyString.

(** ** Requests, responses and the world a handler acts on *)

(** The part of Express's [req] the handlers read, and the one property
    Express's own [res.send] reads of it besides the method: [req.fresh],
    true when the request is a GET or HEAD whose cache validators
    (If-None-Match, If-Modified-Since) match the response about to be sent
    with a 2xx status, and false for every other request. *)
Record request : Type := {
  method : string;
  url : string;
  query : value;
  authorization : option string;   (* req.headers.authorization *)
  fresh : bool;                    (* req.fresh *)
  body : value;                    (* req.body, set by body-parser *)
}.

(** Express's [res]: the status code, the headers the application has set
    with [setHeader] (those Express adds on its own account, X-Powered-By,
    Content-Type, Content-Length and ETag, are not recorded) and the body
    once the response has been sent, [undefined] standing for a response
    that ends without body. *)
Record res : Type := {
  statusCode : Z;
  headers : list (string * string);
  sent : option value;
}.

(** The options object handed to request-promise. *)
Record rp_options : Type := {
  uri : string;
  rp_method : string;
  rp_headers : list (string * string);
  qs : list (string * value);
}.

(** What a handler can change: the response, the outbound requests issued
    so far, and the one object the pipeline holds in memory, the parsed
    bundle ([None] until [JSON.parse] has produced it). *)
Record world : Type := {
  response : res;
  fetched : list rp_options;
  bundle : option value;
}.

(** ** The runtime the service runs against

    The packages the file requires and the built-ins whose results depend on
    the engine are parameters of the development: the theorems hold for
    every runtime.
    - [jwt_decode]: jsonwebtoken's [decode]; it may throw.
    - [rp]: request-promise; the promise is rejected (transport error,
      non-2xx status) or fulfilled with the response body.
    - [JSON_parse]: [JSON.parse]; a SyntaxError or the parsed tree.
    - [localeCompare]: [String.prototype.localeCompare] in the host locale.
    - [StringToNumber_zero s]: whether ToNumber of the string [s] is zero,
      the one fact that [==] against [0] needs about a string. *)
Class Runtime : Type := {
  jwt_decode : value -> result value;
  rp : rp_options -> result string;
  JSON_parse : string -> result value;
  localeCompare : string -> string -> Z;
  StringToNumber_zero : string -> bool;
}.

(** The two revisions of the service in the repository.  They differ in the
    answer to a wrong hook, in the diagnostic steps of the promise chain and
    in the source of the card. *)
Inductive revision : Type :=
| index_js     (* src/index.js *)
| part_000.    (* src/unnamed/part_000 *)

(** ** A state and error monad for handlers *)

Definition M (A : Type) : Type := world -> result A * world.

Definition ret {A} (a : A) : M A := fun w => (Ok a, w).

Definition throw {A} (e : exn) : M A := fun w => (Err e, w).

Definition lift {A} (r : result A) : M A := fun w => (r, w).

Definition mbind {A B} (m : M A) (k : A -> M B) : M B :=
  fun w =>
    match m w with
    | (Ok a, w') => k a w'
    | (Err e, w') => (Err e, w')
    end.

(** [promise.catch(handler)]. *)
Definition catch {A} (m : M A) (handler : exn -> M A) : M A :=
  fun w =>
    match m w with
    | (Ok a, w') => (Ok a, w')
    | (Err e, w') => handler e w'
    end.

Notation "x <~ m ;; k" := (mbind m (fun x => k))
  (at level 61, m at next level, right associativity).
Notation "m ;;; k" := (mbind m (fun _ => k))
  (at level 61, right associativity).

Definition set_response (r : res) (w : world) : world :=
  {| response := r; fetched := fetched w; bundle := bundle w |}.

(** [res.setHeader(name, v)]. *)
Definition setHeader (name v : string) (r : res) : res :=
  {| statusCode := statusCode r; headers := headers r ++ [(name, v)]; sent := sent r |}.

(** [res.status(code)]. *)
Definition res_status (code : Z) : M unit :=
  fun w =>
    (Ok tt, set_response {| statusCode := code;
                            headers := headers (response w);
                            sent := sent (response w) |} w).

(** [res.json(v)] in answer to a request that is neither fresh nor a HEAD,
    as every POST is: the body is sent with the status held by [res]. *)
Definition res_json (v : value) : M unit :=
  fun w =>
    (Ok tt, set_response {| statusCode := statusCode (response w);
                            headers := headers (response w);
                            sent := Some v |} w).


(** The CORS middleware (lines 11-23), run before every handler. *)
Definition cors (r : res) : res :=
  setHeader "Access-Control-Allow-Headers"
    "Content-Type, Authorization, Origin, Accept, Content-Location, Location, X-Requested-With"
    (setHeader "Access-Control-Allow-Credentials" "true"
       (setHeader "Access-Control-Allow-Method" "GET, POST, OPTIONS"
          (setHeader "Access-Control-Allow-Origin" "*" r))).

(** The response object as a handler receives it: Express's default status
    200, nothing sent, the middleware's headers set. *)
Definition new_res : res :=
  cors {| statusCode := 200; headers := []; sent := None |}.

Definition new_world : world :=
  {| response := new_res; fetched := []; bundle := None |}.

(** ** Helpers of the source *)

(** [_throw] (lines 26-28). *)
Definition _throw {A} (str : value) : result A := Err (Thrown str).

(** [print_then_return] (lines 35-38): logs its argument and returns it. *)
Definition print_then_return (a : value) : result value := Ok a.

(** ** The discovery handler (lines 41-62) *)



(** ** [Array.prototype.sort]

    ECMAScript fixes the result of [sort] for a consistent comparator (the
    elements in ascending order, equal elements in their original order:
    there is one such arrangement) and leaves the sequence of comparator
    calls to the engine.  The model is a stable insertion sort that takes
    the elements from left to right and calls the comparator with the
    element being placed as its first argument; an array of one element is
    returned without any call.  The comparator may throw: the exception
    ends the sort, and nothing is written back to the array. *)

Section Sorting.
Context {A : Type} (comparefn : A -> A -> result Z).

Fixpoint insert (x : A) (run : list A) : result (list A) :=
  match run with
  | [] => Ok [x]
  | y :: rest =>
      order <- comparefn x y ;;
      if order <? 0 then Ok (x :: y :: rest)
      else (placed <- insert x rest ;; Ok (y :: placed))
  end.

Fixpoint sort_onto (run : list A) (l : list A) : result (list A) :=
  match l with
  | [] => Ok run
  | x :: rest => run' <- insert x run ;; sort_onto run' rest
  end.

Definition Array_sort (l : list A) : result (list A) := sort_onto [] l.
End Sorting.

(** [items.map(f)] for a callback that may throw. *)
Fixpoint Array_map {A B} (f : A -> result B) (items : list A) : result (list B) :=
  match items with
  | [] => Ok []
  | x :: rest => y <- f x ;; ys <- Array_map f rest ;; Ok (y :: ys)
  end.

Fixpoint update (k : string) (v : value) (props : list (string * value))
  : list (string * value) :=
  match props with
  | [] => [(k, v)]
  | (k', v') :: rest =>
      if String.eqb k k' then (k, v) :: rest else (k', v') :: update k v rest
  end.

(** What [o.k] holds after the object it refers to has been changed to [v]. *)
Definition set_prop (o : value) (k : string) (v : value) : value :=
  match o with
  | VObj props => VObj (update k v props)
  | _ => o
  end.

(** ** The patient-view handler (lines 84-157 of index.js, 84-178 of part_000) *)

Section PatientView.
Context {R : Runtime} (rev : revision).

(** [v == 0]. *)
Definition loose_eq_zero (v : value) : result bool :=
  p <- ToPrimitive v ;;
  match p with
  | VBool b => Ok (negb b)
  | VNum n => Ok (n =? 0)
  | VStr s => Ok (StringToNumber_zero s)
  | _ => Ok false
  end.

(** [this.localeCompare(that)]: only a string has the method, and the
    argument is converted to a string. *)
Definition String_localeCompare (this that : value) : result Z :=
  match this with
  | VStr s => t <- ToString that ;; Ok (localeCompare s t)
  | _ => Err TypeError
  end.

(** [val.resource.vaccineCode.text]. *)
Definition vaccine_text (val : value) : result value :=
  resource <- get_prop val "resource" ;;
  vaccineCode <- get_prop resource "vaccineCode" ;;
  get_prop vaccineCode "text".

(** [val.resource.expirationDate]. *)
Definition expirationDate (val : value) : result value :=
  resource <- get_prop val "resource" ;;
  get_prop resource "expirationDate".

(** The comparator handed to [sort]. *)
Definition compare_text (a b : value) : result Z :=
  ta <- vaccine_text a ;;
  tb <- vaccine_text b ;;
  String_localeCompare ta tb.

(** Reading the header, splitting it and decoding the second part. *)
Definition bearer_token (req : request) : result value :=
  match authorization req with
  | None => Err TypeError                     (* undefined.split *)
  | Some auth =>
      let auth_split := split " " auth in
      Ok (index auth_split 1)
  end.

Definition check_auth (req : request) : result value :=
  token <- bearer_token req ;;
  jwt_decode token.

(** [body.hook != "patient-view"]. *)
Definition hook_differs (body : value) : result bool :=
  hook <- get_prop body "hook" ;;
  same <- loose_eq_text hook "patient-view" ;;
  Ok (negb same).

(** The answer to a wrong hook. *)
Definition reject_hook : M unit :=
  match rev with
  | index_js =>
      res_json (VObj [("error", VStr "Something is terrible here!")])
  | part_000 =>
      res_status 400 ;;;
      res_json (VObj [("error", VStr "CDS Hook doesn't match what was expected")])
  end.

(** The options of the outbound call, built from the request body. *)
Definition immunization_request (body : value) : result rp_options :=
  root <- get_prop body "fhirServer" ;;
  context <- get_prop body "context" ;;
  patient_id <- get_prop context "patientId" ;;
  root_text <- ToString root ;;
  let patient_url := root_text ++ "/Immunization" in
  Ok {| uri := patient_url;
        rp_method := "GET";
        rp_headers := [("Accept", "application/json+fhir")];
        qs := [("patient", patient_id)] |}.

(** [rp(options)]: the call is recorded, the runtime decides its result. *)
Definition call_rp (options : rp_options) : M string :=
  fun w =>
    (rp options,
     {| response := response w;
        fetched := fetched w ++ [options];
        bundle := bundle w |}).

(** The parsed bundle enters memory. *)
Definition hold (record : value) : M value :=
  fun w =>
    (Ok record,
     {| response := response w; fetched := fetched w; bundle := Some record |}).

(** The diagnostic [.then(print_then_return)] steps of index.js. *)
Definition diagnostic (a : value) : result value :=
  match rev with
  | index_js => print_then_return a
  | part_000 => Ok a
  end.

(** [record => (record.total == 0 ? _throw(...) : record.entry)]. *)
Definition select_entries (record : value) : result value :=
  total <- get_prop record "total" ;;
  empty <- loose_eq_zero total ;;
  if (empty : bool) then _throw (VStr "No immmunization Record found")
  else get_prop record "entry".

(** [l => l.sort(...)].  [l] is the very array held by the bundle's
    [entry] property, and [sort] reorders it in place: once the sort has
    completed, the bundle in memory holds the sorted array.  Anything but
    an array has no [sort] method. *)
Definition sort_in_place (l : value) : M (list value) :=
  match l with
  | VArr items =>
      sorted <~ lift (Array_sort compare_text items) ;;
      fun w =>
        (Ok sorted,
         {| response := response w;
            fetched := fetched w;
            bundle := option_map
                        (fun record => set_prop record "entry" (VArr sorted))
                        (bundle w) |})
  | _ => throw TypeError
  end.

Definition table_header : string :=
  "| Vaccination | Expiration Date |" ++ LF ++ "| :---: | :---: |" ++ LF.

(** The callback of [immun_list.map]. *)
Definition table_row (val : value) : result string :=
  date <- expirationDate val ;;
  let exp_date := if ToBoolean date then date else VStr "Does not expire" in
  text <- vaccine_text val ;;
  text_cell <- ToString text ;;
  date_cell <- ToString exp_date ;;
  Ok ("| " ++ text_cell ++ " | " ++ date_cell ++ " |").

Definition source_label : string :=
  match rev with
  | index_js => "Local Immune Registry"
  | part_000 => "Your Immune Registry"
  end.

Definition source_url : string :=
  match rev with
  | index_js => "http://www.google.com"
  | part_000 => ""
  end.

Definition card (markdown_result : string) : value :=
  VObj [("summary", VStr "This patient has received immunizations");
        ("detail", VStr markdown_result);
        ("source", VObj [("label", VStr source_label);
                         ("url", VStr source_url)]);
        ("indicator", VStr "info")].

(** The rendering step: no card for an empty list, one card otherwise. *)
Definition render (immun_list : list value) : result (list value) :=
  match immun_list with
  | [] => Ok []
  | _ :: _ =>
      rows <- Array_map table_row immun_list ;;
      let markdown_result := table_header ++ String.concat LF rows in
      Ok [card markdown_result]
  end.

Definition cards_body (cards : list value) : value :=
  VObj [("cards", VArr cards)].

(** The promise chain: what follows [.then(JSON.parse)] ... *)
Definition process (parsed : value) : M unit :=
  record <~ hold parsed ;;
  record <~ lift (diagnostic record) ;;
  l <~ lift (select_entries record) ;;
  immun_list <~ sort_in_place l ;;
  _ <~ lift (diagnostic (VArr immun_list)) ;;
  cards <~ lift (render immun_list) ;;
  res_json (cards_body cards).

(** ... and the whole of it, from [rp] on. *)
Definition chain (options : rp_options) : M unit :=
  text <~ call_rp options ;;
  parsed <~ lift (JSON_parse text) ;;
  process parsed.

(** The [.catch] at the end of the chain. *)
Definition on_error (error : exn) : M unit :=
  res_json (cards_body []).

Definition post_patient_view (req : request) : M unit :=
  _ <~ lift (check_auth req) ;;
  differs <~ lift (hook_differs (body req)) ;;
  if (differs : bool) then reject_hook
  else
    (options <~ lift (immunization_request (body req)) ;;
     catch (chain options) on_error).

End PatientView.

(** ** A runtime for the examples

    The decoder answers [null] (what jsonwebtoken returns for a token it
    cannot read), the FHIR server's reply and the tree [JSON.parse] makes of
    it are given, strings are compared byte by byte, and of the spellings
    of zero only the two shortest are known. *)

Definition byte_order (s t : string) : Z :=
  match String.compare s t with
  | Lt => -1
  | Eq => 0
  | Gt => 1
  end.

Definition stub (reply : result string) (parsed : result value) : Runtime :=
  {| jwt_decode := fun _ => Ok VNull;
     rp := fun _ => reply;
     JSON_parse := fun _ => parsed;
     localeCompare := byte_order;
     StringToNumber_zero := fun s => String.eqb s "" || String.eqb s "0" |}.

Definition offline : Runtime := stub (Err (RequestError "ECONNREFUSED")) (Err SyntaxError).

(** A POST to [/test1/cds-services/patientService]. *)
Definition post (auth : option string) (payload : value) : request :=
  {| method := "POST";
     url := "/test1/cds-services/patientService";
     query := VObj [];
     authorization := auth;
     fresh := false;
     body := payload |}.

Definition hook_request (hook : value) : value :=
  VObj [("hook", hook);
        ("fhirServer", VStr "https://fhir.example/r2");
        ("context", VObj [("patientId", VStr "p1")])].

(** The world after [res.status(code).json(v)]. *)
Definition answered (code : Z) (v : value) (w : world) : world :=
  set_response {| statusCode := code;
                  headers := headers (response w);
                  sent := Some v |} w.

(** ** The pipeline without its effects

    What the promise chain computes, read off the handler for the
    statements below: the request that reaches the fetch, the sorted array,
    the cards, and the bundle as the chain leaves it in memory. *)

Section Pipeline.
Context {R : Runtime} (rev : revision).

(** The handler goes as far as the fetch, which it issues with [options]. *)
Definition accepted (req : request) (options : rp_options) : Prop :=
  (exists payload, check_auth req = Ok payload) /\
  hook_differs (body req) = Ok false /\
  immunization_request (body req) = Ok options.

Definition sorted_entries (parsed : value) : result (list value) :=
  l <- select_entries parsed ;;
  match l with
  | VArr items => Array_sort compare_text items
  | _ => Err TypeError
  end.

Definition pipeline (options : rp_options) : result (list value) :=
  text <- rp options ;;
  parsed <- JSON_parse text ;;
  sorted <- sorted_entries parsed ;;
  render rev sorted.

Definition bundle_after (parsed : value) : value :=
  match sorted_entries parsed with
  | Ok sorted => set_prop parsed "entry" (VArr sorted)
  | Err _ => parsed
  end.

(** The failures of the fetch-parse-sort-render pipeline. *)
Inductive failure (options : rp_options) : Prop :=
| network_error (e : exn) :
    rp options = Err e -> failure options
| parse_error (text : string) (e : exn) :
    rp options = Ok text -> JSON_parse text = Err e -> failure options
| empty_result (text : string) (parsed total : value) :
    rp options = Ok text -> JSON_parse text = Ok parsed ->
    get_prop parsed "total" = Ok total -> loose_eq_zero total = Ok true ->
    failure options
| no_entry_list (text : string) (parsed l : value) :
    rp options = Ok text -> JSON_parse text = Ok parsed ->
    select_entries parsed = Ok l -> (forall items, l <> VArr items) ->
    failure options
| no_vaccine_code (text : string) (parsed val : value) (items : list value) (e : exn) :
    rp options = Ok text -> JSON_parse text = Ok parsed ->
    select_entries parsed = Ok (VArr items) -> In val items ->
    vaccine_text val = Err e ->
    failure options
| raised (e : exn) :
    pipeline options = Err e -> failure options.
End Pipeline.

(** ** The bundle shape of the data model

    An entry is well formed when it has the shape
    [{resource: {vaccineCode: {text: string}, expirationDate?: string}}],
    other properties being free.  Its row holds the text and the date, or
    the words [Does not expire] for a date that is absent or empty. *)

Definition well_formed (val : value) : Prop :=
  (exists text, vaccine_text val = Ok (VStr text)) /\
  (expirationDate val = Ok VUndefined \/ exists date, expirationDate val = Ok (VStr date)).

Definition text_of (val : value) : string :=
  match vaccine_text val with
  | Ok (VStr text) => text
  | _ => ""
  end.

Definition date_cell (val : value) : string :=
  match expirationDate val with
  | Ok (VStr date) => if String.eqb date "" then "Does not expire" else date
  | _ => "Does not expire"
  end.

Definition row_of (val : value) : string :=
  "| " ++ text_of val ++ " | " ++ date_cell val ++ " |".

(** An entry, as the FHIR server sends it. *)
Definition immunization (text : string) (date : option string) : value :=
  VObj [("fullUrl", VStr ("urn:immunization:" ++ text));
        ("resource",
         VObj (("resourceType", VStr "Immunization")
               :: ("vaccineCode", VObj [("text", VStr text)])
               :: match date with
                  | Some d => [("expirationDate", VStr d)]
                  | None => []
                  end))].

Definition search_result (total : value) (entries : list value) : value :=
  VObj [("resourceType", VStr "Bundle"); ("total", total); ("entry", VArr entries)].

(** An entry that carries nothing but the key [k]. *)
Definition key_entry (k : string) : value :=
  VObj [("resource", VObj [("vaccineCode", VObj [("text", VStr k)])])].

(** [localeCompare] is a consistent comparator in the sense of ECMAScript's
    [Array.prototype.sort]. *)
Definition consistent (compare : string -> string -> Z) : Prop :=
  (forall a b, Z.sgn (compare a b) = - Z.sgn (compare b a)) /\
  (forall a b c, compare a b <= 0 -> compare b c <= 0 -> compare a c <= 0).

(** A comparator [c] that never throws, the order it induces, and the
    elements it cannot tell from [k]. *)
Definition total_comparator {A} (c : A -> A -> Z) (x y : A) : result Z := Ok (c x y).

Definition ascending {A} (c : A -> A -> Z) (x y : A) : Prop := c x y <= 0.

Definition tied {A} (c : A -> A -> Z) (k x : A) : bool := c x k =? 0.

(** The comparator of the chain on well-formed entries. *)
Definition by_text {R : Runtime} (a b : value) : Z :=
  localeCompare (text_of a) (text_of b).

(** The world after an accepted request: the cards sent with status 200,
    the one outbound request, and the bundle left in memory. *)
Definition replied (cards : list value) (options : rp_options) (held : option value) : world :=
  {| response := response (answered 200 (cards_body cards) new_world);
     fetched := [options];
     bundle := held |}.

(** The world after an accepted request, the status and the body of the
    answer given in full. *)
Definition served (status : Z) (sent_body : value) (options : rp_options)
           (held : option value) : world :=
  {| response := response (answered status sent_body new_world);
     fetched := [options];
     bundle := held |}.


(** A request for the hook, and the call it leads to. *)
Definition patient_view_post : request :=
  post (Some "Bearer abc") (hook_request (VStr "patient-view")).

Definition immunization_call : rp_options :=
  {| uri := "https://fhir.example/r2/Immunization";
     rp_method := "GET";
     rp_headers := [("Accept", "application/json+fhir")];
     qs := [("patient", VStr "p1")] |}.

(** A FHIR server that replies with the bundle [parsed]. *)
Definition fhir (parsed : value) : Runtime := stub (Ok "(bundle)") (Ok parsed).

Definition mmr : value := immunization "MMR" None.
Definition flu : value := immunization "Flu" (Some "2025-01-01").

(** The scenario of the specification: two records, MMR before Flu. *)
Definition two_shots : Runtime := fhir (search_result (VNum 2) [mmr; flu]).


(** Whether the character [c] occurs in [s]. *)
Fixpoint occurs (c : ascii) (s : string) : bool :=
  match s with
  | EmptyString => false
  | String c' rest => Ascii.eqb c' c || occurs c rest
  end.

(** ** Discovery *)




(** ** Authentication extraction *)

Section Authentication.
Context {R : Runtime} (rev : revision).

(** A header that is present is read and split without any fault: the
    token is the second part, or [undefined] when there is none. *)
Lemma bearer_token_present (req : request) (auth : string) :
  authorization req = Some auth ->
  bearer_token req = Ok (index (split " " auth) 1).
Proof.
  intros H. unfold bearer_token. now rewrite H.
Qed.

(** C7 (amended): a request without Authorization header makes the
    handler throw a TypeError at [auth.split]: nothing guards the read.
    The handler stops there: no response is sent (in particular no 400)
    and no outbound request is issued. *)
Theorem missing_authorization_faults (req : request) (w : world) :
  authorization req = None ->
  post_patient_view rev req w = (Err TypeError, w).
Proof.
  intros H.
  unfold post_patient_view, mbind, lift, check_auth, bearer_token.
  now rewrite H.
Qed.

(** Up to hook validation the handler only reads: with the token decoded
    and the comparison made, it goes on to the rejection or to the fetch. *)
Lemma post_patient_view_checked (req : request) (payload : value) (differs : bool) (w : world) :
  check_auth req = Ok payload ->
  hook_differs (body req) = Ok differs ->
  post_patient_view rev req w =
    if differs then reject_hook rev w
    else (options <~ lift (immunization_request (body req)) ;;
          catch (chain rev options) on_error) w.
Proof.
  intros Ha Hh. unfold post_patient_view, mbind, lift.
  rewrite Ha, Hh. now destruct differs.
Qed.
End Authentication.

(** ** Hook validation *)

Section HookValidation.
Context {R : Runtime}.

(** The hooks that [!=] tells apart from ["patient-view"] include every
    absent hook and every other string. *)
Lemma hook_differs_string (props : list (string * value)) (s : string) :
  lookup "hook" props = Some (VStr s) ->
  hook_differs (VObj props) = Ok (negb (String.eqb s "patient-view")).
Proof.
  intros H. unfold hook_differs, get_prop. now rewrite H.
Qed.

Lemma hook_differs_absent (props : list (string * value)) :
  lookup "hook" props = None ->
  hook_differs (VObj props) = Ok true.
Proof.
  intros H. unfold hook_differs, get_prop. now rewrite H.
Qed.

(** C1 (amended): when the Authorization header is present and decoded
    without fault and [body.hook != "patient-view"] holds, the handler of
    part_000 answers 400 with the body [{error: ...}] and returns: no
    outbound request is issued. *)
Theorem wrong_hook_rejected (req : request) (payload : value) (w : world) :
  check_auth req = Ok payload ->
  hook_differs (body req) = Ok true ->
  post_patient_view part_000 req w =
    (Ok tt,
     answered 400 (VObj [("error", VStr "CDS Hook doesn't match what was expected")]) w) /\
  fetched (snd (post_patient_view part_000 req w)) = fetched w.
Proof.
  intros Ha Hh.
  rewrite (post_patient_view_checked part_000 req payload true w Ha Hh).
  split; reflexivity.
Qed.

(** The older revision sends its error body with the status [res] already
    holds, Express's default 200. *)
Lemma wrong_hook_index_js (req : request) (payload : value) (w : world) :
  check_auth req = Ok payload ->
  hook_differs (body req) = Ok true ->
  post_patient_view index_js req w =
    (Ok tt,
     answered (statusCode (response w))
       (VObj [("error", VStr "Something is terrible here!")]) w).
Proof.
  intros Ha Hh.
  rewrite (post_patient_view_checked index_js req payload true w Ha Hh).
  reflexivity.
Qed.
End HookValidation.

(** C1, witness: a request for another hook is answered 400. *)
Lemma wrong_hook_rejected_witness :
  post_patient_view (R := offline) part_000
    (post (Some "Bearer abc") (hook_request (VStr "order-review"))) new_world =
    (Ok tt,
     answered 400 (VObj [("error", VStr "CDS Hook doesn't match what was expected")])
       new_world) /\
  fetched (snd (post_patient_view (R := offline) part_000
                  (post (Some "Bearer abc") (hook_request (VStr "order-review")))
                  new_world)) = fetched new_world.
Proof.
  apply (wrong_hook_rejected (R := offline) _ VNull); reflexivity.
Defined.

(** C1, counterexample: (1) without Authorization header a request for
    another hook gets no answer at all: the handler throws before it looks
    at the hook; (2) the hook [["patient-view"]], an array and not the
    string, passes the validation, since [!=] compares it through its
    string conversion: the fetch is issued and the answer has status 200. *)
Lemma wrong_hook_not_rejected :
  (let req := post None (hook_request (VStr "order-review")) in
   get_prop (body req) "hook" <> Ok (VStr "patient-view") /\
   post_patient_view (R := offline) part_000 req new_world = (Err TypeError, new_world) /\
   sent (response new_world) = None) /\
  (let req := post (Some "Bearer abc") (hook_request (VArr [VStr "patient-view"])) in
   get_prop (body req) "hook" <> Ok (VStr "patient-view") /\
   post_patient_view (R := offline) part_000 req new_world =
     (Ok tt,
      {| response := response (answered 200 (VObj [("cards", VArr [])]) new_world);
         fetched := [{| uri := "https://fhir.example/r2/Immunization";
                        rp_method := "GET";
                        rp_headers := [("Accept", "application/json+fhir")];
                        qs := [("patient", VStr "p1")] |}];
         bundle := None |})).
Proof.
  split; cbn zeta; (split; [discriminate|]).
  - split; reflexivity.
  - reflexivity.
Qed.

(** C7, witness. *)
Lemma missing_authorization_faults_witness :
  post_patient_view (R := offline) part_000
    (post None (hook_request (VStr "patient-view"))) new_world =
    (Err TypeError, new_world).
Proof.
  apply (missing_authorization_faults (R := offline)); reflexivity.
Defined.

(** C7, counterexample: the header [Bearer] is not of the form
    [<scheme> <token>], yet reading and splitting it is no fault: the token
    is [undefined], the decoder answers [null], and the request is
    validated like any other; with a wrong hook it is answered 400. *)
Lemma malformed_authorization_no_fault :
  let req := post (Some "Bearer") (hook_request (VStr "order-review")) in
  bearer_token req = Ok VUndefined /\
  post_patient_view (R := offline) part_000 req new_world =
    (Ok tt,
     answered 400 (VObj [("error", VStr "CDS Hook doesn't match what was expected")])
       new_world).
Proof.
  split; reflexivity.
Qed.

(** ** Facts about the sort *)

Section SortFacts.
Context {A : Type}.
Local Open Scope list_scope.

Lemma insert_perm (f : A -> A -> result Z) (x : A) (run run' : list A) :
  insert f x run = Ok run' -> Permutation (x :: run) run'.
Proof.
  revert run'. induction run as [|y rest IH]; intros run' H; cbn in H.
  - injection H as <-. apply Permutation_refl.
  - destruct (f x y) as [order|]; cbn in H; [|discriminate].
    destruct (order <? 0).
    + injection H as <-. apply Permutation_refl.
    + destruct (insert f x rest) as [placed|]; cbn in H; [|discriminate].
      injection H as <-.
      rewrite perm_swap. apply perm_skip. now apply IH.
Qed.

Lemma sort_onto_perm (f : A -> A -> result Z) (l run out : list A) :
  sort_onto f run l = Ok out -> Permutation (run ++ l) out.
Proof.
  revert run out. induction l as [|x rest IH]; intros run out H; cbn in H.
  - injection H as <-. now rewrite app_nil_r.
  - destruct (insert f x run) as [run'|] eqn:E; cbn in H; [|discriminate].
    apply IH in H. apply insert_perm in E.
    rewrite <- H, <- E. cbn.
    symmetry. apply Permutation_middle.
Qed.

(** The sort neither adds, drops nor duplicates an element, whatever the
    comparator answers. *)
Lemma Array_sort_perm (f : A -> A -> result Z) (l out : list A) :
  Array_sort f l = Ok out -> Permutation l out.
Proof.
  intros H. now apply sort_onto_perm in H.
Qed.

(** Only the comparisons between elements of the array matter. *)
Lemma insert_ext (f g : A -> A -> result Z) (x : A) (run : list A) :
  (forall y, In y run -> f x y = g x y) ->
  insert f x run = insert g x run.
Proof.
  induction run as [|y rest IH]; intros H; cbn; [reflexivity|].
  rewrite (H y (or_introl eq_refl)).
  rewrite IH; [reflexivity|].
  intros z Hz. apply H. now right.
Qed.

Lemma sort_onto_ext (f g : A -> A -> result Z) (l run : list A) :
  (forall x y, In x (run ++ l) -> In y (run ++ l) -> f x y = g x y) ->
  sort_onto f run l = sort_onto g run l.
Proof.
  revert run. induction l as [|x rest IH]; intros run H; cbn; [reflexivity|].
  rewrite (insert_ext f g x run).
  - destruct (insert g x run) as [run'|] eqn:E; cbn; [|reflexivity].
    apply IH. intros a b Ha Hb.
    apply insert_perm in E.
    assert (Hsub : forall z, In z (run' ++ rest) -> In z (run ++ x :: rest)).
    { intros z Hz. apply in_app_or in Hz. destruct Hz as [Hz|Hz].
      - apply (Permutation_in _ (Permutation_sym E)) in Hz.
        destruct Hz as [<-|Hz]; apply in_or_app; [right; now left|now left].
      - apply in_or_app. right. now right. }
    apply H; now apply Hsub.
  - intros y Hy. apply H; apply in_or_app; [right; now left|now left].
Qed.

(** *** A comparator that never throws and is consistent *)

Variable c : A -> A -> Z.
Hypothesis c_antisym : forall x y, Z.sgn (c x y) = - Z.sgn (c y x).
Hypothesis c_trans : forall x y z, c x y <= 0 -> c y z <= 0 -> c x z <= 0.


Lemma c_ge_le (x y : A) : 0 <= c x y -> c y x <= 0.
Proof.
  intros H. pose proof (c_antisym x y). lia.
Qed.

Lemma c_lt_le_lt (x y z : A) : c x y < 0 -> c y z <= 0 -> c x z < 0.
Proof.
  intros Hxy Hyz.
  pose proof (c_trans x y z ltac:(lia) Hyz) as Hxz.
  destruct (Z.eq_dec (c x z) 0) as [E|]; [|lia].
  assert (Hzx : c z x <= 0) by (pose proof (c_antisym x z); lia).
  pose proof (c_trans y z x Hyz Hzx).
  pose proof (c_antisym x y). lia.
Qed.

Lemma c_same_class (x z k : A) : c x k = 0 -> c z k = 0 -> c x z = 0.
Proof.
  intros Hx Hz.
  assert (c k x <= 0) by (pose proof (c_antisym x k); lia).
  assert (c k z <= 0) by (pose proof (c_antisym z k); lia).
  pose proof (c_trans x k z ltac:(lia) ltac:(lia)).
  pose proof (c_trans z k x ltac:(lia) ltac:(lia)).
  pose proof (c_antisym x z). lia.
Qed.

Lemma insert_pure_total (x : A) (run : list A) :
  exists run', insert (total_comparator c) x run = Ok run'.
Proof.
  induction run as [|y rest [placed IH]]; cbn.
  - now exists [x].
  - destruct (c x y <? 0); [now eexists|].
    rewrite IH. cbn. now eexists.
Qed.

Lemma sort_onto_pure_total (l run : list A) :
  exists out, sort_onto (total_comparator c) run l = Ok out.
Proof.
  revert run. induction l as [|x rest IH]; intros run; cbn.
  - now exists run.
  - destruct (insert_pure_total x run) as [run' ->]. cbn. apply IH.
Qed.

Lemma insert_sorted (x : A) (run run' : list A) :
  StronglySorted (ascending c) run ->
  insert (total_comparator c) x run = Ok run' ->
  StronglySorted (ascending c) run'.
Proof.
  revert run'. induction run as [|y rest IH]; intros run' Hs H; cbn in H.
  - injection H as <-. repeat constructor.
  - inversion Hs as [|? ? Hrest Hy]; subst.
    destruct (c x y <? 0) eqn:E.
    + injection H as <-. constructor; [assumption|].
      apply Z.ltb_lt in E. constructor; [unfold ascending; lia|].
      eapply Forall_impl; [|exact Hy].
      intros z Hz. unfold ascending in *. apply (c_trans x y z); lia.
    + apply Z.ltb_ge in E.
      destruct (insert (total_comparator c) x rest) as [placed|] eqn:P; cbn in H; [|discriminate].
      injection H as <-. constructor; [now apply IH|].
      apply insert_perm in P.
      apply (Permutation_Forall P). constructor; [|assumption].
      now apply c_ge_le.
Qed.

Lemma sort_onto_sorted (l run out : list A) :
  StronglySorted (ascending c) run ->
  sort_onto (total_comparator c) run l = Ok out ->
  StronglySorted (ascending c) out.
Proof.
  revert run out. induction l as [|x rest IH]; intros run out Hs H; cbn in H.
  - now injection H as <-.
  - destruct (insert (total_comparator c) x run) as [run'|] eqn:E; cbn in H; [|discriminate].
    apply (IH run'); [|assumption].
    now apply (insert_sorted x run).
Qed.

(** Stability: among the elements that compare equal to [k], the sort
    keeps the original order. *)

Lemma filter_head (f : A -> bool) (x : A) (l : list A) :
  filter f (x :: l) = filter f [x] ++ filter f l.
Proof.
  cbn. now destruct (f x).
Qed.

Lemma filter_none (f : A -> bool) (l : list A) :
  (forall z, In z l -> f z = false) -> filter f l = [].
Proof.
  induction l as [|y rest IH]; intros H; cbn; [reflexivity|].
  rewrite (H y (or_introl eq_refl)). apply IH.
  intros z Hz. apply H. now right.
Qed.

Lemma insert_stable (k x : A) (run run' : list A) :
  StronglySorted (ascending c) run ->
  insert (total_comparator c) x run = Ok run' ->
  filter (tied c k) run' = filter (tied c k) run ++ filter (tied c k) [x].
Proof.
  revert run'. induction run as [|y rest IH]; intros run' Hs H; cbn in H.
  - now injection H as <-.
  - inversion Hs as [|? ? Hrest Hy]; subst.
    destruct (c x y <? 0) eqn:E.
    + injection H as <-. apply Z.ltb_lt in E.
      rewrite (filter_head (tied c k) x (y :: rest)).
      destruct (tied c k x) eqn:Kx.
      * rewrite (filter_none (tied c k) (y :: rest)); [now rewrite app_nil_r|].
        intros z Hz.
        assert (Hxz : c x z < 0).
        { destruct Hz as [<-|Hz]; [assumption|].
          apply (c_lt_le_lt x y z); [assumption|].
          rewrite Forall_forall in Hy. now apply Hy. }
        unfold tied in *. apply Z.eqb_eq in Kx.
        apply Z.eqb_neq. intros Kz.
        pose proof (c_same_class x z k Kx Kz). lia.
      * cbn [filter]. rewrite Kx. now rewrite app_nil_r.
    + destruct (insert (total_comparator c) x rest) as [placed|] eqn:P; cbn in H; [|discriminate].
      injection H as <-.
      rewrite (filter_head (tied c k) y placed), (filter_head (tied c k) y rest).
      rewrite (IH placed Hrest eq_refl). now rewrite app_assoc.
Qed.

Lemma sort_onto_stable (k : A) (l run out : list A) :
  StronglySorted (ascending c) run ->
  sort_onto (total_comparator c) run l = Ok out ->
  filter (tied c k) out = filter (tied c k) run ++ filter (tied c k) l.
Proof.
  revert run out. induction l as [|x rest IH]; intros run out Hs H; cbn in H.
  - injection H as <-. cbn. now rewrite app_nil_r.
  - destruct (insert (total_comparator c) x run) as [run'|] eqn:E; cbn in H; [|discriminate].
    rewrite (IH run' out (insert_sorted x run run' Hs E) H).
    rewrite (insert_stable k x run run' Hs E).
    rewrite (filter_head (tied c k) x rest). now rewrite app_assoc.
Qed.

(** With a consistent comparator the sort returns a result, the elements
    in ascending order, equal elements in their original order. *)
Lemma Array_sort_pure (l : list A) :
  exists out,
    Array_sort (total_comparator c) l = Ok out /\
    Permutation l out /\
    StronglySorted (ascending c) out /\
    forall k, filter (tied c k) out = filter (tied c k) l.
Proof.
  destruct (sort_onto_pure_total l []) as [out H].
  exists out. split; [exact H|]. split; [now apply Array_sort_perm in H|]. split.
  - apply (sort_onto_sorted l [] out); [constructor|exact H].
  - intros k. apply (sort_onto_stable k l [] out); [constructor|exact H].
Qed.
End SortFacts.

(** ** The chain and its catch *)

Section Chain.
Context {R : Runtime} (rev : revision).

Lemma diagnostic_returns (a : value) : diagnostic rev a = Ok a.
Proof.
  now destruct rev.
Qed.

(** Whatever the parsed reply, the chain ends with [res.json] of a cards
    array, on the status [res] holds. *)
Lemma process_run (parsed : value) (w : world) :
  catch (process rev parsed) on_error w =
    (Ok tt,
     {| response :=
          {| statusCode := statusCode (response w);
             headers := headers (response w);
             sent := Some (cards_body
                             match sorted <- sorted_entries parsed ;; render rev sorted with
                             | Ok cards => cards
                             | Err _ => []
                             end) |};
        fetched := fetched w;
        bundle := Some (bundle_after parsed) |}).
Proof.
  unfold process, catch, mbind, lift, hold, bundle_after, sorted_entries.
  rewrite diagnostic_returns.
  destruct (select_entries parsed) as [l|e]; cbn; [|reflexivity].
  destruct l; cbn; try reflexivity.
  unfold mbind, lift.
  destruct (Array_sort compare_text items) as [sorted|e]; cbn; [|reflexivity].
  rewrite diagnostic_returns.
  destruct (render rev sorted) as [cards|e]; reflexivity.
Qed.

Lemma catch_bind_ok {A B} (m : M A) (k : A -> M B) (h : exn -> M B)
      (w w' : world) (a : A) :
  m w = (Ok a, w') -> catch (mbind m k) h w = catch (k a) h w'.
Proof.
  intros H. unfold catch, mbind. now rewrite H.
Qed.

Lemma catch_bind_err {A B} (m : M A) (k : A -> M B) (h : exn -> M B)
      (w w' : world) (e : exn) :
  m w = (Err e, w') -> catch (mbind m k) h w = h e w'.
Proof.
  intros H. unfold catch, mbind. now rewrite H.
Qed.

Lemma chain_run (options : rp_options) (w : world) :
  catch (chain rev options) on_error w =
    (Ok tt,
     {| response :=
          {| statusCode := statusCode (response w);
             headers := headers (response w);
             sent := Some (cards_body
                             match pipeline rev options with
                             | Ok cards => cards
                             | Err _ => []
                             end) |};
        fetched := fetched w ++ [options];
        bundle := match text <- rp options ;; JSON_parse text with
                  | Ok parsed => Some (bundle_after parsed)
                  | Err _ => bundle w
                  end |}).
Proof.
  set (w1 := {| response := response w;
                fetched := fetched w ++ [options];
                bundle := bundle w |}).
  unfold chain, pipeline.
  destruct (rp options) as [text|e] eqn:E.
  - rewrite (catch_bind_ok _ _ _ w w1 text) by (unfold call_rp; now rewrite E).
    cbn [bind].
    destruct (JSON_parse text) as [parsed|e] eqn:P.
    + rewrite (catch_bind_ok _ _ _ w1 w1 parsed) by reflexivity.
      now rewrite process_run.
    + now rewrite (catch_bind_err _ _ _ w1 w1 e) by reflexivity.
  - now rewrite (catch_bind_err _ _ _ w w1 e) by (unfold call_rp; now rewrite E).
Qed.

Lemma accepted_run (req : request) (options : rp_options) (w : world) :
  accepted req options ->
  post_patient_view rev req w = catch (chain rev options) on_error w.
Proof.
  intros [[payload Ha] [Hh Ho]].
  rewrite (post_patient_view_checked rev req payload false w Ha Hh).
  unfold mbind, lift. now rewrite Ho.
Qed.
End Chain.

Section Outcome.
Context {R : Runtime} (rev : revision).

(** An accepted request is always answered: status 200, a cards array,
    one outbound request. *)
Lemma accepted_reply (req : request) (options : rp_options) :
  accepted req options ->
  post_patient_view rev req new_world =
    (Ok tt,
     replied match pipeline rev options with
             | Ok cards => cards
             | Err _ => []
             end
             options
             match text <- rp options ;; JSON_parse text with
             | Ok parsed => Some (bundle_after parsed)
             | Err _ => None
             end).
Proof.
  intros H. rewrite (accepted_run rev req options new_world H).
  now rewrite chain_run.
Qed.
End Outcome.

(** ** The FHIR fetch *)

Section Fetch.
Context {R : Runtime} (rev : revision).

(** C9: for a request with the header decoded, the hook accepted,
    [fhirServer] the string [F] and [context.patientId] the value [P],
    the handler issues exactly one outbound request, a GET to
    [F + "/Immunization"] with the query parameter [patient = P] and the
    header [Accept: application/json+fhir]; and whatever body comes back
    is handed to [JSON.parse], whose result is all the rest of the chain
    works on. *)
Theorem fetch_request (req : request) (payload ctx P : value) (F : string) :
  check_auth req = Ok payload ->
  hook_differs (body req) = Ok false ->
  get_prop (body req) "fhirServer" = Ok (VStr F) ->
  get_prop (body req) "context" = Ok ctx ->
  get_prop ctx "patientId" = Ok P ->
  let options := {| uri := F ++ "/Immunization";
                    rp_method := "GET";
                    rp_headers := [("Accept", "application/json+fhir")];
                    qs := [("patient", P)] |} in
  fetched (snd (post_patient_view rev req new_world)) = [options] /\
  forall text,
    rp options = Ok text ->
    post_patient_view rev req new_world =
      catch (parsed <~ lift (JSON_parse text) ;; process rev parsed) on_error
        {| response := new_res; fetched := [options]; bundle := None |}.
Proof.
  intros Ha Hh Hf Hc Hp options.
  assert (Hacc : accepted req options).
  { split; [now exists payload|]. split; [assumption|].
    unfold immunization_request. rewrite Hf, Hc. cbn [bind]. now rewrite Hp. }
  split.
  - now rewrite (accepted_reply rev req options Hacc).
  - intros text Ht.
    rewrite (accepted_run rev req options new_world Hacc).
    unfold chain.
    now rewrite (catch_bind_ok _ _ _ new_world
                   {| response := new_res; fetched := [options]; bundle := None |} text)
      by (unfold call_rp; now rewrite Ht).
Qed.
End Fetch.

(** C9, witness. *)
Lemma fetch_request_witness :
  fetched (snd (post_patient_view (R := two_shots) part_000 patient_view_post new_world)) =
    [immunization_call] /\
  forall text,
    rp (Runtime := two_shots) immunization_call = Ok text ->
    post_patient_view (R := two_shots) part_000 patient_view_post new_world =
      catch (parsed <~ lift (JSON_parse (Runtime := two_shots) text) ;;
             process (R := two_shots) part_000 parsed) on_error
        {| response := new_res; fetched := [immunization_call]; bundle := None |}.
Proof.
  apply (fetch_request (R := two_shots) part_000
           patient_view_post VNull (VObj [("patientId", VStr "p1")]) (VStr "p1")
           "https://fhir.example/r2"); reflexivity.
Defined.

(** ** The empty-result short-circuit *)

Section EmptyResult.
Context {R : Runtime} (rev : revision).

Lemma select_entries_empty (parsed total : value) :
  get_prop parsed "total" = Ok total ->
  loose_eq_zero total = Ok true ->
  select_entries parsed = Err (Thrown (VStr "No immmunization Record found")).
Proof.
  intros Ht Hz. unfold select_entries. rewrite Ht. cbn [bind]. now rewrite Hz.
Qed.

End EmptyResult.


(** ** Rendering *)

Section Rendering.

Lemma Array_map_ok {A B} (f : A -> result B) (g : A -> B) (l : list A) :
  Forall (fun x => f x = Ok (g x)) l ->
  Array_map f l = Ok (map g l).
Proof.
  induction 1 as [|x rest Hx _ IH]; cbn; [reflexivity|].
  now rewrite Hx, IH.
Qed.

Lemma Array_map_err {A B} (f : A -> result B) (l : list A) (x : A) (e : exn) :
  In x l -> f x = Err e -> exists e', Array_map f l = Err e'.
Proof.
  intros Hin Hx. induction l as [|y rest IH]; [contradiction|].
  cbn. destruct Hin as [->|Hin].
  - rewrite Hx. now eexists.
  - destruct (f y); cbn; [|now eexists].
    destruct (IH Hin) as [e' ->]. now eexists.
Qed.

(** C10: when [resource.expirationDate] holds a falsy value (the empty
    string, [0], [false], [null], as well as no value at all), the date
    cell of the entry's row reads [Does not expire]: the substitution
    tests the value's truthiness. *)
Theorem falsy_date_does_not_expire (val date text : value) (text_cell : string) :
  expirationDate val = Ok date ->
  ToBoolean date = false ->
  vaccine_text val = Ok text ->
  ToString text = Ok text_cell ->
  table_row val = Ok ("| " ++ text_cell ++ " | Does not expire |").
Proof.
  intros Hd Hf Ht Hs. unfold table_row.
  rewrite Hd. cbn [bind]. rewrite Hf, Ht. cbn [bind]. rewrite Hs. reflexivity.
Qed.

Lemma table_row_fails (val : value) (e : exn) :
  vaccine_text val = Err e -> exists e', table_row val = Err e'.
Proof.
  intros H. unfold table_row.
  destruct (expirationDate val); cbn [bind]; [|now eexists].
  rewrite H. now eexists.
Qed.

Lemma table_row_well_formed (val : value) :
  well_formed val -> table_row val = Ok (row_of val).
Proof.
  intros [[text Ht] Hd]. unfold table_row, row_of, text_of, date_cell.
  rewrite Ht. destruct Hd as [Hd|[date Hd]]; rewrite Hd; cbn [bind ToBoolean].
  - reflexivity.
  - destruct (String.eqb date ""); reflexivity.
Qed.
End Rendering.

(** C10, witness: an entry whose [expirationDate] is the empty string. *)
Lemma falsy_date_does_not_expire_witness :
  table_row (immunization "MMR" (Some "")) = Ok "| MMR | Does not expire |".
Proof.
  apply (falsy_date_does_not_expire (immunization "MMR" (Some "")) (VStr "") (VStr "MMR") "MMR");
    reflexivity.
Defined.

(** ** The catch-all error path *)

Section Failures.
Context {R : Runtime} (rev : revision).

(** Each failure makes the chain throw. *)
Lemma failure_raises (options : rp_options) :
  failure rev options -> exists e, pipeline rev options = Err e.
Proof.
  intros [e Hr|text e Hr Hp|text parsed total Hr Hp Ht Hz|text parsed l Hr Hp Hs Hl
         |text parsed val items e Hr Hp Hs Hin Hv|e H];
    unfold pipeline, sorted_entries; try rewrite Hr; cbn [bind]; try rewrite Hp; cbn [bind].
  - now eexists.
  - now eexists.
  - rewrite (select_entries_empty parsed total Ht Hz). now eexists.
  - rewrite Hs. cbn [bind].
    destruct l; try (now eexists). now destruct (Hl items).
  - rewrite Hs. cbn [bind].
    destruct (Array_sort compare_text items) as [sorted|e'] eqn:E; cbn [bind]; [|now eexists].
    apply Array_sort_perm in E.
    pose proof (Permutation_in _ E Hin) as Hin'.
    destruct (table_row_fails val e Hv) as [e1 H1].
    destruct (Array_map_err table_row sorted val e1 Hin' H1) as [e2 H2].
    unfold render. destruct sorted as [|s0 rest]; [contradiction|].
    rewrite H2. now eexists.
  - exists e. exact H.
Qed.

(** Once the request is accepted, the answer has status 200 whatever
    happens in the chain. *)
Lemma accepted_status (req : request) (options : rp_options) :
  accepted req options ->
  statusCode (response (snd (post_patient_view rev req new_world))) = 200.
Proof.
  intros Hacc. now rewrite (accepted_reply rev req options Hacc).
Qed.

(** C2 (amended): once the request is accepted, each failure of the
    pipeline (the fetch rejected, the body not JSON, [total == 0],
    [entry] not an array, an entry without [resource] or [vaccineCode],
    or any other exception raised in the chain) is answered with status
    200 and the body [{cards: []}]. *)
Theorem failures_give_no_cards (req : request) (options : rp_options) :
  accepted req options ->
  failure rev options ->
  exists held,
    post_patient_view rev req new_world =
      (Ok tt, served 200 (VObj [("cards", VArr [])]) options held).
Proof.
  intros Hacc Hf. rewrite (accepted_reply rev req options Hacc).
  destruct (failure_raises options Hf) as [e ->].
  now eexists.
Qed.
End Failures.

(** C2, witness: a server that cannot be reached. *)
Lemma failures_give_no_cards_witness :
  exists held,
    post_patient_view (R := offline) part_000 patient_view_post new_world =
      (Ok tt, served 200 (VObj [("cards", VArr [])]) immunization_call held).
Proof.
  apply (failures_give_no_cards (R := offline) part_000 patient_view_post immunization_call).
  - split; [now exists VNull|]. split; reflexivity.
  - apply (network_error (R := offline) part_000 immunization_call
             (RequestError "ECONNREFUSED")).
    reflexivity.
Defined.

(** C2, counterexample: (1) a bundle whose single entry has a
    [vaccineCode] without [text].  Nothing throws: an array of one element
    is sorted without a comparison, and the template prints the missing
    text as [undefined].  The answer carries a card, not [{cards: []}].
    (2) A request that passes hook validation but has no [context]: reading
    [body.context.patientId] throws while the fetch is being prepared,
    outside the chain and its catch, and no answer is sent. *)
Lemma missing_text_is_rendered :
  (let entry := VObj [("resource", VObj [("vaccineCode", VObj [])])] in
   let parsed := search_result (VNum 1) [entry] in
   vaccine_text entry = Ok VUndefined /\
   post_patient_view (R := fhir parsed) part_000 patient_view_post new_world =
     (Ok tt,
      served 200
        (VObj [("cards",
                VArr [VObj [("summary", VStr "This patient has received immunizations");
                            ("detail",
                             VStr ("| Vaccination | Expiration Date |" ++ LF ++
                                   "| :---: | :---: |" ++ LF ++
                                   "| undefined | Does not expire |")%string);
                            ("source", VObj [("label", VStr "Your Immune Registry"); ("url", VStr "")]);
                            ("indicator", VStr "info")]])])
        immunization_call (Some parsed))) /\
  (let req := post (Some "Bearer abc")
                (VObj [("hook", VStr "patient-view");
                       ("fhirServer", VStr "https://fhir.example/r2")]) in
   hook_differs (body req) = Ok false /\
   post_patient_view (R := offline) part_000 req new_world = (Err TypeError, new_world) /\
   sent (response new_world) = None).
Proof.
  split; [split; reflexivity|]. split; [reflexivity|]. split; reflexivity.
Qed.

(** ** The bundle in memory *)

Section Bundle.
Context {R : Runtime} (rev : revision).

Lemma lookup_update_same (k : string) (v : value) (props : list (string * value)) :
  lookup k (update k v props) = Some v.
Proof.
  induction props as [|[k' v'] rest IH]; cbn.
  - now rewrite String.eqb_refl.
  - destruct (String.eqb k k') eqn:E; cbn; rewrite ?String.eqb_refl, ?E; auto.
Qed.

Lemma lookup_update_other (k k' : string) (v : value) (props : list (string * value)) :
  k <> k' -> lookup k (update k' v props) = lookup k props.
Proof.
  intros Hk. apply String.eqb_neq in Hk.
  induction props as [|[k0 v0] rest IH]; cbn.
  - now rewrite Hk.
  - destruct (String.eqb k' k0) eqn:E; cbn.
    + apply String.eqb_eq in E. subst k0. now rewrite Hk.
    + now rewrite IH.
Qed.

Lemma get_set_same (props : list (string * value)) (k : string) (v : value) :
  get_prop (set_prop (VObj props) k v) k = Ok v.
Proof.
  cbn. now rewrite lookup_update_same.
Qed.

Lemma get_set_other (o : value) (k k' : string) (v : value) :
  k <> k' -> get_prop (set_prop o k' v) k = get_prop o k.
Proof.
  intros Hk. destruct o; try reflexivity.
  cbn. now rewrite (lookup_update_other k k' v props Hk).
Qed.

(** The array the sort receives is the one under the bundle's [entry]. *)
Lemma select_entries_array (parsed : value) (items : list value) :
  select_entries parsed = Ok (VArr items) ->
  get_prop parsed "entry" = Ok (VArr items) /\ exists props, parsed = VObj props.
Proof.
  unfold select_entries. intros H.
  destruct (get_prop parsed "total") as [total|]; cbn [bind] in H; [|discriminate].
  destruct (loose_eq_zero total) as [[|]|]; cbn [bind] in H; try discriminate.
  split; [exact H|].
  destruct parsed; try discriminate. now eexists.
Qed.

(** C6 (amended): the chain changes the bundle it holds in one way only:
    [sort] reorders the array under [entry] in place.  After the answer,
    every other property of the bundle reads as it was received; when the
    sort has run to its end, [entry] holds what the sort returned, the
    same entries in sorted order; when the chain failed before that (the
    [total] test threw, [entry] was no array, the comparator threw), the
    bundle is the one received. *)
Theorem bundle_reordered_in_place
        (req : request) (options : rp_options) (text : string) (parsed : value) :
  accepted req options ->
  rp options = Ok text ->
  JSON_parse text = Ok parsed ->
  exists held,
    bundle (snd (post_patient_view rev req new_world)) = Some held /\
    (forall k, k <> "entry" -> get_prop held k = get_prop parsed k) /\
    match select_entries parsed with
    | Ok (VArr items) =>
        match Array_sort compare_text items with
        | Ok sorted =>
            get_prop parsed "entry" = Ok (VArr items) /\
            Permutation items sorted /\
            get_prop held "entry" = Ok (VArr sorted)
        | Err _ => held = parsed
        end
    | _ => held = parsed
    end.
Proof.
  intros Hacc Hr Hp. exists (bundle_after parsed).
  rewrite (accepted_reply rev req options Hacc), Hr. cbn [bind]. rewrite Hp.
  split; [reflexivity|].
  unfold bundle_after, sorted_entries.
  destruct (select_entries parsed) as [l|e] eqn:Hs; cbn [bind]; [|now split].
  destruct l; try (now split).
  destruct (Array_sort compare_text items) as [sorted|e] eqn:E; [|now split].
  destruct (select_entries_array parsed items Hs) as [He [props ->]].
  split.
  - intros k Hk. now apply get_set_other.
  - split; [exact He|]. split.
    + now apply Array_sort_perm in E.
    + apply get_set_same.
Qed.
End Bundle.

(** C6, witness: the bundle arrives as MMR, Flu; the sort returns Flu, MMR,
    and that is what [entry] holds afterwards. *)
Lemma bundle_reordered_in_place_witness :
  exists held,
    bundle (snd (post_patient_view (R := two_shots) part_000 patient_view_post new_world)) =
      Some held /\
    (forall k, k <> "entry" ->
               get_prop held k = get_prop (search_result (VNum 2) [mmr; flu]) k) /\
    (get_prop (search_result (VNum 2) [mmr; flu]) "entry" = Ok (VArr [mmr; flu]) /\
     Permutation [mmr; flu] [flu; mmr] /\
     get_prop held "entry" = Ok (VArr [flu; mmr])).
Proof.
  apply (bundle_reordered_in_place (R := two_shots) part_000 patient_view_post
           immunization_call "(bundle)" (search_result (VNum 2) [mmr; flu])).
  - split; [now exists VNull|]. split; reflexivity.
  - reflexivity.
  - reflexivity.
Defined.

(** C6, counterexample: the server sends MMR before Flu; once the answer is
    built, the bundle in memory has Flu before MMR: it is not the bundle
    that was received. *)
Lemma bundle_is_mutated :
  bundle (snd (post_patient_view (R := two_shots) part_000 patient_view_post new_world)) =
    Some (search_result (VNum 2) [flu; mmr]) /\
  JSON_parse (Runtime := two_shots) "(bundle)" = Ok (search_result (VNum 2) [mmr; flu]) /\
  search_result (VNum 2) [flu; mmr] <> search_result (VNum 2) [mmr; flu].
Proof.
  split; [reflexivity|]. split; [reflexivity|]. discriminate.
Qed.

(** ** The card *)

Section Cards.
Context {R : Runtime} (rev : revision).
Local Open Scope list_scope.

Lemma compare_text_well_formed (a b : value) :
  well_formed a -> well_formed b ->
  compare_text a b = Ok (localeCompare (text_of a) (text_of b)).
Proof.
  intros [[ta Ha] _] [[tb Hb] _]. unfold compare_text, text_of.
  now rewrite Ha, Hb.
Qed.

(** On well-formed entries the comparator never throws. *)
Lemma sort_well_formed (items : list value) :
  Forall well_formed items ->
  Array_sort compare_text items = Array_sort (total_comparator by_text) items.
Proof.
  intros Hwf. apply sort_onto_ext. cbn [app].
  rewrite Forall_forall in Hwf.
  intros x y Hx Hy. apply compare_text_well_formed; now apply Hwf.
Qed.

Lemma sort_well_formed_total (items : list value) :
  Forall well_formed items ->
  exists sorted, Array_sort compare_text items = Ok sorted.
Proof.
  intros Hwf. rewrite (sort_well_formed items Hwf).
  apply (sort_onto_pure_total by_text).
Qed.

Lemma select_entries_nonzero (parsed total l : value) :
  get_prop parsed "total" = Ok total ->
  loose_eq_zero total = Ok false ->
  get_prop parsed "entry" = Ok l ->
  select_entries parsed = Ok l.
Proof.
  intros Ht Hz He. unfold select_entries.
  rewrite Ht. cbn [bind]. rewrite Hz. exact He.
Qed.

(** The answer for a bundle of well-formed entries that passes the
    [total] test. *)
Lemma card_of_well_formed
      (req : request) (options : rp_options) (text : string)
      (parsed total : value) (items sorted : list value) :
  accepted req options ->
  rp options = Ok text ->
  JSON_parse text = Ok parsed ->
  get_prop parsed "total" = Ok total ->
  loose_eq_zero total = Ok false ->
  get_prop parsed "entry" = Ok (VArr items) ->
  items <> [] ->
  Forall well_formed items ->
  Array_sort compare_text items = Ok sorted ->
  post_patient_view rev req new_world =
    (Ok tt,
     replied [card rev (table_header ++ String.concat LF (map row_of sorted))%string]
       options (Some (set_prop parsed "entry" (VArr sorted)))).
Proof.
  intros Hacc Hr Hp Ht Hz He Hne Hwf Hs.
  pose proof (select_entries_nonzero parsed total _ Ht Hz He) as Hsel.
  pose proof (Array_sort_perm _ _ _ Hs) as Hperm.
  rewrite (accepted_reply rev req options Hacc).
  unfold pipeline, bundle_after, sorted_entries.
  rewrite Hr. cbn [bind]. rewrite Hp. cbn [bind]. rewrite Hsel. cbn [bind].
  rewrite Hs. cbn [bind].
  unfold render. destruct sorted as [|s0 rest].
  - apply Permutation_sym, Permutation_nil in Hperm. contradiction.
  - rewrite (Array_map_ok table_row row_of (s0 :: rest)); [reflexivity|].
    apply (Permutation_Forall Hperm).
    eapply Forall_impl; [|exact Hwf].
    intros val Hval. now apply table_row_well_formed.
Qed.

(** C3 (amended): for an accepted request whose bundle passes the [total]
    test ([total == 0] is false) and has a non-empty list of well-formed
    entries, the answer is 200 with a body [{cards: [card]}] of exactly
    one card.  Its detail is the header row
    [| Vaccination | Expiration Date |], the alignment row, and one row
    per entry (the rows of a permutation of the entries), each holding the
    entry's text and its date, or [Does not expire] for a date that is
    absent or empty; its summary is a fixed sentence, its source a fixed
    label and url, its indicator [info]. *)
Theorem one_card_per_bundle
        (req : request) (options : rp_options) (text : string)
        (parsed total : value) (items : list value) :
  accepted req options ->
  rp options = Ok text ->
  JSON_parse text = Ok parsed ->
  get_prop parsed "total" = Ok total ->
  loose_eq_zero total = Ok false ->
  get_prop parsed "entry" = Ok (VArr items) ->
  items <> [] ->
  Forall well_formed items ->
  exists sorted held,
    Array_sort compare_text items = Ok sorted /\
    Permutation items sorted /\
    post_patient_view rev req new_world =
      (Ok tt,
       served 200
         (VObj [("cards",
                 VArr [VObj [("summary", VStr "This patient has received immunizations");
                             ("detail",
                              VStr ("| Vaccination | Expiration Date |" ++ LF ++
                                    "| :---: | :---: |" ++ LF ++
                                    String.concat LF (map row_of sorted))%string);
                             ("source",
                              VObj [("label", VStr match rev with
                                                       | index_js => "Local Immune Registry"
                                                       | part_000 => "Your Immune Registry"
                                                       end);
                                    ("url", VStr match rev with
                                                     | index_js => "http://www.google.com"
                                                     | part_000 => ""
                                                     end)]);
                             ("indicator", VStr "info")]])])
         options held).
Proof.
  intros Hacc Hr Hp Ht Hz He Hne Hwf.
  destruct (sort_well_formed_total items Hwf) as [sorted Hs].
  exists sorted, (Some (set_prop parsed "entry" (VArr sorted))).
  split; [exact Hs|]. split; [now apply Array_sort_perm in Hs|].
  rewrite (card_of_well_formed req options text parsed total items sorted); try assumption.
  now destruct rev.
Qed.

(** C4 (amended): for an accepted request whose bundle passes the [total]
    test and has a non-empty list of well-formed entries, and a
    [localeCompare] that is a consistent comparator, the rows of the one
    card in the answer are the bundle's entries, none added, dropped or
    duplicated, in ascending order of [vaccineCode.text] under
    [localeCompare], and entries whose texts compare equal stay in the
    order of the bundle. *)
Theorem rows_sorted_stably
        (req : request) (options : rp_options) (text : string)
        (parsed total : value) (items : list value) :
  consistent localeCompare ->
  accepted req options ->
  rp options = Ok text ->
  JSON_parse text = Ok parsed ->
  get_prop parsed "total" = Ok total ->
  loose_eq_zero total = Ok false ->
  get_prop parsed "entry" = Ok (VArr items) ->
  items <> [] ->
  Forall well_formed items ->
  exists sorted held,
    Permutation items sorted /\
    StronglySorted (fun a b => localeCompare (text_of a) (text_of b) <= 0) sorted /\
    (forall k,
       filter (fun val => localeCompare (text_of val) k =? 0) sorted =
       filter (fun val => localeCompare (text_of val) k =? 0) items) /\
    post_patient_view rev req new_world =
      (Ok tt,
       served 200
         (VObj [("cards",
                 VArr [VObj [("summary", VStr "This patient has received immunizations");
                             ("detail",
                              VStr ("| Vaccination | Expiration Date |" ++ LF ++
                                    "| :---: | :---: |" ++ LF ++
                                    String.concat LF (map row_of sorted))%string);
                             ("source",
                              VObj [("label", VStr match rev with
                                                       | index_js => "Local Immune Registry"
                                                       | part_000 => "Your Immune Registry"
                                                       end);
                                    ("url", VStr match rev with
                                                     | index_js => "http://www.google.com"
                                                     | part_000 => ""
                                                     end)]);
                             ("indicator", VStr "info")]])])
         options held).
Proof.
  intros [Hanti Htrans] Hacc Hr Hp Ht Hz He Hne Hwf.
  destruct (Array_sort_pure by_text
              (fun a b => Hanti (text_of a) (text_of b))
              (fun a b c => Htrans (text_of a) (text_of b) (text_of c))
              items) as [sorted [Hs [Hperm [Hsorted Hstable]]]].
  rewrite <- (sort_well_formed items Hwf) in Hs.
  exists sorted, (Some (set_prop parsed "entry" (VArr sorted))).
  split; [exact Hperm|]. split; [exact Hsorted|]. split.
  - intros k. exact (Hstable (key_entry k)).
  - rewrite (card_of_well_formed req options text parsed total items sorted);
      try assumption.
    now destruct rev.
Qed.
End Cards.

(** ** The examples' comparator is consistent *)

Lemma compare_le_trans (a b c : string) :
  String.compare a b <> Gt -> String.compare b c <> Gt -> String.compare a c <> Gt.
Proof.
  revert b c. induction a as [|x a IH]; intros [|y b] [|z c]; cbn; try congruence.
  unfold Ascii.compare.
  destruct (N.compare_spec (N_of_ascii x) (N_of_ascii y)) as [Exy|Lxy|Gxy];
    destruct (N.compare_spec (N_of_ascii y) (N_of_ascii z)) as [Eyz|Lyz|Gyz];
    destruct (N.compare_spec (N_of_ascii x) (N_of_ascii z)) as [Exz|Lxz|Gxz];
    try congruence; try lia.
  apply IH.
Qed.

Lemma byte_order_consistent : consistent byte_order.
Proof.
  split.
  - intros a b. unfold byte_order. rewrite (String.compare_antisym b a).
    now destruct (String.compare a b).
  - intros a b c Hab Hbc. unfold byte_order in *.
    pose proof (compare_le_trans a b c) as H.
    destruct (String.compare a b), (String.compare b c), (String.compare a c);
      try lia; exfalso; apply H; congruence.
Qed.

Lemma two_shots_well_formed : Forall well_formed [mmr; flu].
Proof.
  apply Forall_cons; [|apply Forall_cons; [|apply Forall_nil]].
  - split; [now exists "MMR"|now left].
  - split; [now exists "Flu"|right; now exists "2025-01-01"].
Qed.

Lemma patient_view_post_accepted (R : Runtime) :
  jwt_decode (VStr "abc") = Ok VNull ->
  accepted patient_view_post immunization_call.
Proof.
  intros H. split; [exists VNull; exact H|]. split; reflexivity.
Qed.

(** The scenario of the specification: the server sends MMR (no date)
    before Flu (2025-01-01); the card lists Flu, then MMR. *)
Example spec_scenario :
  post_patient_view (R := two_shots) part_000 patient_view_post new_world =
    (Ok tt,
     served 200
       (VObj [("cards",
               VArr [VObj [("summary", VStr "This patient has received immunizations");
                           ("detail",
                            VStr ("| Vaccination | Expiration Date |" ++ LF ++
                                  "| :---: | :---: |" ++ LF ++
                                  "| Flu | 2025-01-01 |" ++ LF ++
                                  "| MMR | Does not expire |")%string);
                           ("source", VObj [("label", VStr "Your Immune Registry"); ("url", VStr "")]);
                           ("indicator", VStr "info")]])])
       immunization_call
       (Some (search_result (VNum 2) [flu; mmr]))).
Proof.
  reflexivity.
Qed.

(** C3, witness. *)
Lemma one_card_per_bundle_witness :
  exists sorted held,
    Array_sort (compare_text (R := two_shots)) [mmr; flu] = Ok sorted /\
    Permutation [mmr; flu] sorted /\
    post_patient_view (R := two_shots) part_000 patient_view_post new_world =
      (Ok tt,
       served 200
         (VObj [("cards",
                 VArr [VObj [("summary", VStr "This patient has received immunizations");
                             ("detail",
                              VStr ("| Vaccination | Expiration Date |" ++ LF ++
                                    "| :---: | :---: |" ++ LF ++
                                    String.concat LF (map row_of sorted))%string);
                             ("source", VObj [("label", VStr "Your Immune Registry"); ("url", VStr "")]);
                             ("indicator", VStr "info")]])])
         immunization_call held).
Proof.
  apply (one_card_per_bundle (R := two_shots) part_000 patient_view_post
           immunization_call "(bundle)" (search_result (VNum 2) [mmr; flu]) (VNum 2)
           [mmr; flu]).
  - now apply patient_view_post_accepted.
  - reflexivity.
  - reflexivity.
  - reflexivity.
  - reflexivity.
  - reflexivity.
  - discriminate.
  - exact two_shots_well_formed.
Defined.

(** C3, counterexample: (1) a bundle with [total: 0] and a non-empty entry
    list is answered without card; (2) an entry whose [expirationDate] is
    present, the empty string, is shown as [Does not expire], not with its
    date. *)
Lemma entries_without_card :
  (let parsed := search_result (VNum 0) [mmr] in
   get_prop parsed "entry" = Ok (VArr [mmr]) /\
   post_patient_view (R := fhir parsed) part_000 patient_view_post new_world =
     (Ok tt, served 200 (VObj [("cards", VArr [])]) immunization_call (Some parsed))) /\
  (let entry := immunization "MMR" (Some "") in
   let parsed := search_result (VNum 1) [entry] in
   expirationDate entry = Ok (VStr "") /\
   post_patient_view (R := fhir parsed) part_000 patient_view_post new_world =
     (Ok tt,
      served 200
        (VObj [("cards",
                VArr [VObj [("summary", VStr "This patient has received immunizations");
                            ("detail",
                             VStr ("| Vaccination | Expiration Date |" ++ LF ++
                                   "| :---: | :---: |" ++ LF ++
                                   "| MMR | Does not expire |")%string);
                            ("source", VObj [("label", VStr "Your Immune Registry"); ("url", VStr "")]);
                            ("indicator", VStr "info")]])])
        immunization_call (Some parsed))).
Proof.
  split; split; reflexivity.
Qed.

(** C4, witness. *)
Lemma rows_sorted_stably_witness :
  exists sorted held,
    Permutation [mmr; flu] sorted /\
    StronglySorted
      (fun a b => localeCompare (Runtime := two_shots) (text_of a) (text_of b) <= 0)
      sorted /\
    (forall k,
       filter (fun val => localeCompare (Runtime := two_shots) (text_of val) k =? 0) sorted =
       filter (fun val => localeCompare (Runtime := two_shots) (text_of val) k =? 0)
         [mmr; flu]) /\
    post_patient_view (R := two_shots) part_000 patient_view_post new_world =
      (Ok tt,
       served 200
         (VObj [("cards",
                 VArr [VObj [("summary", VStr "This patient has received immunizations");
                             ("detail",
                              VStr ("| Vaccination | Expiration Date |" ++ LF ++
                                    "| :---: | :---: |" ++ LF ++
                                    String.concat LF (map row_of sorted))%string);
                             ("source", VObj [("label", VStr "Your Immune Registry"); ("url", VStr "")]);
                             ("indicator", VStr "info")]])])
         immunization_call held).
Proof.
  apply (rows_sorted_stably (R := two_shots) part_000 patient_view_post
           immunization_call "(bundle)" (search_result (VNum 2) [mmr; flu]) (VNum 2)
           [mmr; flu]).
  - exact byte_order_consistent.
  - now apply patient_view_post_accepted.
  - reflexivity.
  - reflexivity.
  - reflexivity.
  - reflexivity.
  - reflexivity.
  - discriminate.
  - exact two_shots_well_formed.
Defined.

(** C4, counterexample: two bundles with a non-empty entry list for which
    no card, hence no row, is rendered: (1) [total] is 0, and the chain
    stops before it looks at the entries; (2) the second entry has no
    [resource], and the comparator throws while the entries are sorted.
    Both are answered [{cards: []}]. *)
Lemma entries_without_rows :
  (let parsed := search_result (VNum 0) [mmr; flu] in
   get_prop parsed "entry" = Ok (VArr [mmr; flu]) /\
   post_patient_view (R := fhir parsed) part_000 patient_view_post new_world =
     (Ok tt, served 200 (VObj [("cards", VArr [])]) immunization_call (Some parsed))) /\
  (let parsed := search_result (VNum 2) [mmr; VObj []] in
   get_prop parsed "entry" = Ok (VArr [mmr; VObj []]) /\
   post_patient_view (R := fhir parsed) part_000 patient_view_post new_world =
     (Ok tt, served 200 (VObj [("cards", VArr [])]) immunization_call (Some parsed))).
Proof.
  split; split; reflexivity.
Qed.

(** * Further properties of the service *)

(** ** What the patient-view handler leaves alone *)

Section HandlerFrame.
Context {R : Runtime} (rev : revision).

(** The three ways the handler can go. *)
Lemma post_patient_view_cases (req : request) (w : world) :
  (exists e, post_patient_view rev req w = (Err e, w)) \/
  (hook_differs (body req) = Ok true /\
   post_patient_view rev req w = reject_hook rev w) \/
  (exists options,
     hook_differs (body req) = Ok false /\
     immunization_request (body req) = Ok options /\
     post_patient_view rev req w = catch (chain rev options) on_error w).
Proof.
  unfold post_patient_view, mbind, lift.
  destruct (check_auth req) as [payload|e]; [|left; now exists e].
  destruct (hook_differs (body req)) as [[|]|e]; [right; left; now split| |left; now exists e].
  destruct (immunization_request (body req)) as [options|e]; [|left; now exists e].
  right. right. now exists options.
Qed.

(** X2: the handler issues at most one outbound request, and only for a
    validated hook: the requests on record afterwards are the ones before,
    or these followed by the one call built from the request body. *)
Theorem post_patient_view_fetches_once (req : request) (w : world) :
  fetched (snd (post_patient_view rev req w)) = fetched w \/
  exists options,
    hook_differs (body req) = Ok false /\
    immunization_request (body req) = Ok options /\
    fetched (snd (post_patient_view rev req w)) = (fetched w ++ [options])%list.
Proof.
  destruct (post_patient_view_cases req w) as [[e ->]|[[_ ->]|[options [Hh [Ho ->]]]]].
  - now left.
  - left. now destruct rev.
  - right. exists options. rewrite chain_run. now repeat split.
Qed.

(** X3: the handler either throws, and then it has done nothing (no body
    sent, no request issued, nothing in memory: the caller is left
    waiting), or it returns, and then it has sent a body. *)
Theorem post_patient_view_throws_or_answers (req : request) (w : world) :
  match fst (post_patient_view rev req w) with
  | Err _ => snd (post_patient_view rev req w) = w
  | Ok _ => exists v, sent (response (snd (post_patient_view rev req w))) = Some v
  end.
Proof.
  destruct (post_patient_view_cases req w) as [[e ->]|[[_ ->]|[options [_ [_ ->]]]]].
  - reflexivity.
  - destruct rev; cbn; now eexists.
  - rewrite chain_run. cbn. now eexists.
Qed.

End HandlerFrame.

Section Status.
Context {R : Runtime}.

(** X4: the status code.  The handler of index.js never sets it: every
    answer goes out with the status [res] arrived with, the answer to a
    wrong hook included.  The handler of part_000 sets it in one case only:
    it is 400 exactly when the hook comparison says the hook differs (and
    the header was decoded), and untouched otherwise. *)
Theorem post_patient_view_status (req : request) (w : world) :
  statusCode (response (snd (post_patient_view index_js req w))) = statusCode (response w) /\
  statusCode (response (snd (post_patient_view part_000 req w))) =
    match check_auth req, hook_differs (body req) with
    | Ok _, Ok true => 400
    | _, _ => statusCode (response w)
    end.
Proof.
  split.
  - destruct (post_patient_view_cases index_js req w)
      as [[e ->]|[[_ ->]|[options [_ [_ ->]]]]]; try reflexivity.
    now rewrite chain_run.
  - unfold post_patient_view, mbind, lift.
    destruct (check_auth req) as [payload|e]; [|reflexivity].
    destruct (hook_differs (body req)) as [[|]|e]; try reflexivity.
    destruct (immunization_request (body req)) as [options|e]; [|reflexivity].
    now rewrite chain_run.
Qed.

(** X5: the diagnostic steps of index.js change nothing: on every request
    the two revisions throw or return alike, issue the same outbound
    requests and leave the same bundle in memory. *)
Theorem revisions_agree (req : request) (w : world) :
  fst (post_patient_view index_js req w) = fst (post_patient_view part_000 req w) /\
  fetched (snd (post_patient_view index_js req w)) =
    fetched (snd (post_patient_view part_000 req w)) /\
  bundle (snd (post_patient_view index_js req w)) =
    bundle (snd (post_patient_view part_000 req w)).
Proof.
  unfold post_patient_view, mbind, lift.
  destruct (check_auth req) as [payload|e]; [|now repeat split].
  destruct (hook_differs (body req)) as [[|]|e]; try now repeat split.
  destruct (immunization_request (body req)) as [options|e]; [|now repeat split].
  rewrite !chain_run. now repeat split.
Qed.
End Status.

(** ** Authentication is not enforced *)

Section NoAuthentication.
Context {R : Runtime} (rev : revision).

(** X6: the decoded token plays no part in the answer.  Two requests with
    the same body, each with a header that is read and decoded without
    fault, are treated alike whatever their tokens, methods, urls and
    queries: same result, same response, same outbound request. *)
Theorem token_is_ignored (req1 req2 : request) (payload1 payload2 : value) (w : world) :
  body req1 = body req2 ->
  check_auth req1 = Ok payload1 ->
  check_auth req2 = Ok payload2 ->
  post_patient_view rev req1 w = post_patient_view rev req2 w.
Proof.
  intros Hb H1 H2. unfold post_patient_view, mbind, lift.
  now rewrite H1, H2, Hb.
Qed.
End NoAuthentication.

(** X6, witness: a bearer token and no token at all. *)
Lemma token_is_ignored_witness :
  post_patient_view (R := two_shots) part_000
    (post (Some "Bearer abc") (hook_request (VStr "patient-view"))) new_world =
  post_patient_view (R := two_shots) part_000
    (post (Some "anything") (hook_request (VStr "patient-view"))) new_world.
Proof.
  apply (token_is_ignored (R := two_shots) part_000 _ _ VNull VNull); reflexivity.
Defined.

(** ** Splitting the header *)

Section Split.

Lemma split_not_nil (sep : ascii) (s : string) : split sep s <> [].
Proof.
  destruct s as [|c rest]; cbn; [discriminate|].
  destruct (Ascii.eqb c sep); [discriminate|].
  destruct (split sep rest); discriminate.
Qed.

(** X7: [split] loses nothing: joining the parts with the separator gives
    the header back, and no part contains the separator. *)
Theorem split_join (sep : ascii) (s : string) :
  String.concat (String sep EmptyString) (split sep s) = s /\
  Forall (fun part => occurs sep part = false) (split sep s).
Proof.
  induction s as [|c rest [IHjoin IHparts]]; cbn.
  - split; [reflexivity|]. now repeat constructor.
  - destruct (Ascii.eqb c sep) eqn:E.
    + apply Ascii.eqb_eq in E. subst c. split.
      * pose proof (split_not_nil sep rest) as Hne.
        destruct (split sep rest) as [|h t]; [contradiction|].
        cbn in *. now rewrite IHjoin.
      * constructor; [reflexivity|assumption].
    + pose proof (split_not_nil sep rest) as Hne.
      destruct (split sep rest) as [|h t]; [contradiction|]. split.
      * cbn in *. destruct t; cbn in *; now rewrite <- IHjoin.
      * inversion IHparts as [|? ? Hh Ht]; subst.
        constructor; [|assumption]. cbn. now rewrite E.
Qed.

Lemma split_whole (sep : ascii) (s : string) :
  occurs sep s = false -> split sep s = [s].
Proof.
  induction s as [|c rest IH]; cbn; [reflexivity|].
  destruct (Ascii.eqb c sep); cbn; [discriminate|].
  intros H. now rewrite (IH H).
Qed.

Lemma split_first (sep : ascii) (a b : string) :
  occurs sep a = false ->
  split sep (a ++ String sep b) = a :: split sep b.
Proof.
  induction a as [|c rest IH]; cbn.
  - intros _. now rewrite Ascii.eqb_refl.
  - destruct (Ascii.eqb c sep); cbn; [discriminate|].
    intros H. now rewrite (IH H).
Qed.

(** X8: for a header of the form [<scheme> <token>], neither part
    containing a space, the bearer token is the token. *)
Theorem bearer_token_of_header (req : request) (scheme token : string) :
  authorization req = Some (scheme ++ " " ++ token) ->
  occurs " " scheme = false ->
  occurs " " token = false ->
  bearer_token req = Ok (VStr token).
Proof.
  intros Ha Hs Ht. unfold bearer_token. rewrite Ha.
  change (scheme ++ " " ++ token) with (scheme ++ String " " token).
  rewrite (split_first " " scheme token Hs), (split_whole " " token Ht).
  reflexivity.
Qed.
End Split.

(** X8, witness. *)
Lemma bearer_token_of_header_witness :
  bearer_token (post (Some "Bearer abc.def.ghi") (hook_request (VStr "patient-view"))) =
    Ok (VStr "abc.def.ghi").
Proof.
  apply (bearer_token_of_header _ "Bearer" "abc.def.ghi"); reflexivity.
Defined.

(** ** Hook validation *)

Section HookExact.

(** X9: for a hook that is neither an array nor an object, the validation
    is exact: the request passes if and only if the hook is the string
    ["patient-view"]; an absent hook, [null], a boolean, a number and any
    other string are all told apart from it. *)
Theorem hook_validation_exact (body hook : value) :
  get_prop body "hook" = Ok hook ->
  (forall items, hook <> VArr items) ->
  (forall props, hook <> VObj props) ->
  (hook_differs body = Ok false <-> hook = VStr "patient-view") /\
  (hook_differs body = Ok true <-> hook <> VStr "patient-view").
Proof.
  intros Hg Harr Hobj. unfold hook_differs. rewrite Hg. cbn [bind].
  destruct hook; cbn.
  1-4: split; split; intros H; try discriminate; try reflexivity; now destruct H.
  - destruct (String.eqb s "patient-view") eqn:E; cbn.
    + apply String.eqb_eq in E. subst s. split; split; intros H; try reflexivity;
        try discriminate. now destruct H.
    + apply String.eqb_neq in E. split; split; intros H; try reflexivity;
        try discriminate; congruence.
  - now destruct (Harr items).
  - now destruct (Hobj props).
Qed.
End HookExact.

(** X9, witness: [null] is not the hook. *)
Lemma hook_validation_exact_witness :
  (hook_differs (hook_request VNull) = Ok false <-> VNull = VStr "patient-view") /\
  (hook_differs (hook_request VNull) = Ok true <-> VNull <> VStr "patient-view").
Proof.
  apply (hook_validation_exact (hook_request VNull) VNull); [reflexivity| |]; discriminate.
Defined.

(** ** Edge cases of the pipeline *)

Section PipelineEdges.
Context {R : Runtime} (rev : revision).
Local Open Scope list_scope.

Lemma render_at_most_one (immun_list cards : list value) :
  render rev immun_list = Ok cards -> (List.length cards <= 1)%nat.
Proof.
  unfold render. destruct immun_list as [|val rest].
  - intros H. injection H as <-. cbn. lia.
  - destruct (Array_map table_row (val :: rest)); cbn [bind]; [|discriminate].
    intros H. injection H as <-. cbn. lia.
Qed.

(** X10: an accepted request is always answered with status 200 and a
    body [{cards: [...]}] that holds no card or one card, never more,
    however many entries the bundle has. *)
Theorem at_most_one_card (req : request) (options : rp_options) :
  accepted req options ->
  exists cards held,
    post_patient_view rev req new_world =
      (Ok tt, served 200 (VObj [("cards", VArr cards)]) options held) /\
    (List.length cards <= 1)%nat.
Proof.
  intros Hacc. rewrite (accepted_reply rev req options Hacc).
  destruct (pipeline rev options) as [cards|e] eqn:E.
  - exists cards. eexists. split; [reflexivity|].
    unfold pipeline in E.
    destruct (rp options) as [text|]; cbn [bind] in E; [|discriminate].
    destruct (JSON_parse text) as [parsed|]; cbn [bind] in E; [|discriminate].
    destruct (sorted_entries parsed) as [sorted|]; cbn [bind] in E; [|discriminate].
    now apply (render_at_most_one sorted).
  - exists []. eexists. split; [reflexivity|]. cbn. lia.
Qed.

Lemma update_same (k : string) (v : value) (props : list (string * value)) :
  lookup k props = Some v -> update k v props = props.
Proof.
  induction props as [|[k' v'] rest IH]; cbn; [discriminate|].
  destruct (String.eqb k k') eqn:E.
  - apply String.eqb_eq in E. subst k'. intros H. now injection H as ->.
  - intros H. now rewrite (IH H).
Qed.

Lemma set_prop_same (o : value) (k : string) (items : list value) :
  get_prop o k = Ok (VArr items) -> set_prop o k (VArr items) = o.
Proof.
  destruct o; cbn; try discriminate.
  destruct (lookup k props) as [v|] eqn:E; [|discriminate].
  intros H. injection H as ->. now rewrite (update_same k (VArr items) props E).
Qed.


(** X12: a bundle without [total] is not short-circuited: [undefined == 0]
    is false, and the entries are rendered as for any other total. *)
Theorem missing_total_is_rendered
        (req : request) (options : rp_options) (text : string)
        (props : list (string * value)) (items : list value) :
  accepted req options ->
  rp options = Ok text ->
  JSON_parse text = Ok (VObj props) ->
  lookup "total" props = None ->
  lookup "entry" props = Some (VArr items) ->
  items <> [] ->
  Forall well_formed items ->
  exists sorted held,
    Permutation items sorted /\
    post_patient_view rev req new_world =
      (Ok tt,
       served 200
         (VObj [("cards",
                 VArr [VObj [("summary", VStr "This patient has received immunizations");
                             ("detail",
                              VStr ("| Vaccination | Expiration Date |" ++ LF ++
                                    "| :---: | :---: |" ++ LF ++
                                    String.concat LF (map row_of sorted))%string);
                             ("source",
                              VObj [("label", VStr match rev with
                                                       | index_js => "Local Immune Registry"
                                                       | part_000 => "Your Immune Registry"
                                                       end);
                                    ("url", VStr match rev with
                                                     | index_js => "http://www.google.com"
                                                     | part_000 => ""
                                                     end)]);
                             ("indicator", VStr "info")]])])
         options held).
Proof.
  intros Hacc Hr Hp Ht He Hne Hwf.
  destruct (sort_well_formed_total items Hwf) as [sorted Hs].
  exists sorted, (Some (set_prop (VObj props) "entry" (VArr sorted))).
  split; [now apply Array_sort_perm in Hs|].
  rewrite (card_of_well_formed rev req options text (VObj props) VUndefined items sorted);
    try assumption; [now destruct rev| | |].
  - cbn. now rewrite Ht.
  - reflexivity.
  - cbn. now rewrite He.
Qed.

(** X13: a body without [fhirServer] is not refused: the template prints
    the missing root as [undefined], and the fetch goes to the relative
    url [undefined/Immunization]. *)
Theorem missing_fhirServer_is_fetched
        (req : request) (payload ctx P : value) (props : list (string * value)) :
  check_auth req = Ok payload ->
  body req = VObj props ->
  hook_differs (VObj props) = Ok false ->
  lookup "fhirServer" props = None ->
  lookup "context" props = Some ctx ->
  get_prop ctx "patientId" = Ok P ->
  fetched (snd (post_patient_view rev req new_world)) =
    [{| uri := "undefined/Immunization";
        rp_method := "GET";
        rp_headers := [("Accept", "application/json+fhir")];
        qs := [("patient", P)] |}].
Proof.
  intros Ha Hb Hh Hf Hc Hp.
  rewrite (accepted_reply rev req
             {| uri := "undefined/Immunization";
                rp_method := "GET";
                rp_headers := [("Accept", "application/json+fhir")];
                qs := [("patient", P)] |}); [reflexivity|].
  split; [now exists payload|]. rewrite Hb. split; [exact Hh|].
  unfold immunization_request, get_prop. rewrite Hf, Hc. cbn [bind].
  fold (get_prop ctx "patientId"). now rewrite Hp.
Qed.
End PipelineEdges.

(** X10, witness. *)
Lemma at_most_one_card_witness :
  exists cards held,
    post_patient_view (R := two_shots) part_000 patient_view_post new_world =
      (Ok tt, served 200 (VObj [("cards", VArr cards)]) immunization_call held) /\
    (List.length cards <= 1)%nat.
Proof.
  apply (at_most_one_card (R := two_shots) part_000 patient_view_post immunization_call).
  now apply patient_view_post_accepted.
Defined.


(** X12, witness. *)
Lemma missing_total_is_rendered_witness :
  exists sorted held,
    Permutation [mmr; flu] sorted /\
    post_patient_view (R := fhir (VObj [("entry", VArr [mmr; flu])])) part_000
      patient_view_post new_world =
      (Ok tt,
       served 200
         (VObj [("cards",
                 VArr [VObj [("summary", VStr "This patient has received immunizations");
                             ("detail",
                              VStr ("| Vaccination | Expiration Date |" ++ LF ++
                                    "| :---: | :---: |" ++ LF ++
                                    String.concat LF (map row_of sorted))%string);
                             ("source", VObj [("label", VStr "Your Immune Registry"); ("url", VStr "")]);
                             ("indicator", VStr "info")]])])
         immunization_call held).
Proof.
  apply (missing_total_is_rendered (R := fhir (VObj [("entry", VArr [mmr; flu])])) part_000
           patient_view_post immunization_call "(bundle)"
           [("entry", VArr [mmr; flu])] [mmr; flu]); try reflexivity.
  - now apply patient_view_post_accepted.
  - discriminate.
  - exact two_shots_well_formed.
Defined.

(** X13, witness. *)
Lemma missing_fhirServer_is_fetched_witness :
  fetched (snd (post_patient_view (R := offline) part_000
                  (post (Some "Bearer abc")
                     (VObj [("hook", VStr "patient-view");
                            ("context", VObj [("patientId", VStr "p1")])]))
                  new_world)) =
    [{| uri := "undefined/Immunization";
        rp_method := "GET";
        rp_headers := [("Accept", "application/json+fhir")];
        qs := [("patient", VStr "p1")] |}].
Proof.
  apply (missing_fhirServer_is_fetched (R := offline) part_000 _ VNull
           (VObj [("patientId", VStr "p1")]) (VStr "p1")
           [("hook", VStr "patient-view");
            ("context", VObj [("patientId", VStr "p1")])]); reflexivity.
Defined.

(** ** A bundle that arrives sorted *)

Section AlreadySorted.
Context {A : Type} (c : A -> A -> Z).
Hypothesis c_antisym : forall x y, Z.sgn (c x y) = - Z.sgn (c y x).
Local Open Scope list_scope.

Lemma insert_last (x : A) (run : list A) :
  Forall (fun y => c y x <= 0) run ->
  insert (total_comparator c) x run = Ok (run ++ [x]).
Proof.
  induction 1 as [|y rest Hy _ IH]; cbn [insert app]; [reflexivity|].
  unfold total_comparator at 1. cbn [bind].
  assert (E : (c x y <? 0) = false).
  { apply Z.ltb_ge. pose proof (c_antisym x y). lia. }
  rewrite E, IH. reflexivity.
Qed.

Lemma sorted_before (a b : list A) (x : A) :
  StronglySorted (ascending c) (a ++ x :: b) ->
  Forall (fun y => c y x <= 0) a.
Proof.
  induction a as [|y rest IH]; cbn; intros H; [constructor|].
  inversion H as [|? ? Hrest Hy]; subst. constructor.
  - rewrite Forall_forall in Hy. apply Hy. apply in_or_app. right. now left.
  - now apply IH.
Qed.

Lemma sort_onto_sorted_input (l run : list A) :
  StronglySorted (ascending c) (run ++ l) ->
  sort_onto (total_comparator c) run l = Ok (run ++ l).
Proof.
  revert run. induction l as [|x rest IH]; intros run H; cbn.
  - now rewrite app_nil_r.
  - rewrite (insert_last x run (sorted_before run rest x H)). cbn [bind].
    rewrite IH; rewrite <- app_assoc; [reflexivity|exact H].
Qed.
End AlreadySorted.

Section SortedBundle.
Context {R : Runtime} (rev : revision).

(** X14: when the entries arrive in ascending order of their texts, the
    sort returns them as they are and the bundle in memory is left exactly
    as received: the in-place sort changes a bundle only if it was out of
    order. *)
Theorem sorted_bundle_is_untouched
        (req : request) (options : rp_options) (text : string)
        (parsed total : value) (items : list value) :
  consistent localeCompare ->
  accepted req options ->
  rp options = Ok text ->
  JSON_parse text = Ok parsed ->
  get_prop parsed "total" = Ok total ->
  loose_eq_zero total = Ok false ->
  get_prop parsed "entry" = Ok (VArr items) ->
  Forall well_formed items ->
  StronglySorted (fun a b => localeCompare (text_of a) (text_of b) <= 0) items ->
  Array_sort compare_text items = Ok items /\
  bundle (snd (post_patient_view rev req new_world)) = Some parsed.
Proof.
  intros [Hanti _] Hacc Hr Hp Ht Hz He Hwf Hsorted.
  assert (Hs : Array_sort compare_text items = Ok items).
  { rewrite (sort_well_formed items Hwf).
    apply (sort_onto_sorted_input by_text
             (fun a b => Hanti (text_of a) (text_of b)) items []).
    exact Hsorted. }
  split; [exact Hs|].
  rewrite (accepted_reply rev req options Hacc), Hr. cbn [bind]. rewrite Hp.
  unfold bundle_after, sorted_entries.
  rewrite (select_entries_nonzero parsed total _ Ht Hz He). cbn [bind].
  rewrite Hs. cbn.
  now rewrite (set_prop_same parsed "entry" items He).
Qed.
End SortedBundle.

(** X14, witness: Flu before MMR. *)
Lemma sorted_bundle_is_untouched_witness :
  Array_sort (compare_text (R := fhir (search_result (VNum 2) [flu; mmr]))) [flu; mmr] =
    Ok [flu; mmr] /\
  bundle (snd (post_patient_view (R := fhir (search_result (VNum 2) [flu; mmr])) part_000
                 patient_view_post new_world)) =
    Some (search_result (VNum 2) [flu; mmr]).
Proof.
  apply (sorted_bundle_is_untouched (R := fhir (search_result (VNum 2) [flu; mmr])) part_000
           patient_view_post immunization_call "(bundle)"
           (search_result (VNum 2) [flu; mmr]) (VNum 2) [flu; mmr]); try reflexivity.
  - exact byte_order_consistent.
  - now apply patient_view_post_accepted.
  - apply Forall_cons; [|apply Forall_cons; [|apply Forall_nil]].
    + split; [now exists "Flu"|right; now exists "2025-01-01"].
    + split; [now exists "MMR"|now left].
  - repeat constructor. cbn. unfold byte_order. cbn. lia.
Defined.
